(** * truncateString: fitting a string into a display width

    Shallow embedding of [src/truncateString.cpp] and the properties of
    its single function [truncateString].

    Data model.
    - [std::string] is a sequence of bytes: [String.string].
    - [size_t] is an unsigned machine integer: [N].  The function performs
      one subtraction, [width - 1], and only under the guard [width > 1],
      so no operation of the function can wrap around; the statements
      below hold for every [N], hence for every value of [size_t],
      whatever its width in bits ([sub_no_wrap]).
    - [std::string::substr] throws [std::out_of_range] when its start
      position lies past the end of the string: calls return a [result]. *)

From Stdlib Require Import NArith Arith Lia Bool Ascii String.

Local Open Scope string_scope.
Local Open Scope N_scope.

(** ** Outcome of a C++ call: a value, or a thrown exception *)

Inductive exn : Type :=
| out_of_range.

Inductive result (A : Type) : Type :=
| Ok (a : A)
| Throw (e : exn).

Arguments Ok {A} a.
Arguments Throw {A} e.

Definition bind {A B : Type} (c : result A) (k : A -> result B) : result B :=
  match c with
  | Ok a => k a
  | Throw e => Throw e
  end.

Notation "x <- c ;; k" := (bind c (fun x => k))
  (at level 61, c at next level, right associativity).

(** ** [size_t] arithmetic *)

Module SizeT.

(** Subtraction of two [bits]-bit unsigned integers, as the machine
    computes it. *)
Definition sub (bits a b : N) : N := (a + 2 ^ bits - b) mod 2 ^ bits.

End SizeT.

(** ** The part of [std::string] the function uses *)

Module StdString.

(** [s.length()] *)
Definition length (s : string) : N := N.of_nat (String.length s).

(** [s.substr(pos, n)]: the characters [pos, pos + min(n, size - pos)),
    and [std::out_of_range] when [pos > size]. *)
Definition substr (s : string) (pos n : N) : result string :=
  if length s <? pos then Throw out_of_range
  else Ok (substring (N.to_nat pos)
                     (N.to_nat (N.min n (length s - pos))) s).

End StdString.

Import StdString.

(** ** The function *)

Definition truncateString (str : string) (width : N) : result string :=
  if width <? length str then
    if 1 <? width then
      head <- substr str 0 (width - 1) ;;
      Ok (head ++ ".")
    else if width =? 1 then
      substr str 0 1
    else
      Ok ""
  else
    Ok str.

(** ** The function with [size_t] arithmetic written out

    The body again, for a [size_t] of [bits] bits: the subtraction
    [width - 1] is the machine's, modulo [2 ^ bits]. *)

Definition truncateString_wrap (bits : N) (str : string) (width : N)
  : result string :=
  if width <? length str then
    if 1 <? width then
      head <- substr str 0 (SizeT.sub bits width 1) ;;
      Ok (head ++ ".")
    else if width =? 1 then
      substr str 0 1
    else
      Ok ""
  else
    Ok str.

(** ** The scenarios of the test suite, and the boundary widths *)

Example ShorterStringUnchanged : truncateString "abc" 5 = Ok "abc".
Proof. reflexivity. Qed.

Example LongerStringTruncated : truncateString "abcdef" 5 = Ok "abcd.".
Proof. reflexivity. Qed.

Example EmptyStringUnchanged : truncateString "" 5 = Ok "".
Proof. reflexivity. Qed.

Example WidthOne : truncateString "abcdef" 1 = Ok "a".
Proof. reflexivity. Qed.

Example WidthZero : truncateString "abcdef" 0 = Ok "".
Proof. reflexivity. Qed.

Example ExactWidth : truncateString "abc" 3 = Ok "abc".
Proof. reflexivity. Qed.

(** ** Facts about [size_t] subtraction *)

(** Under the guard [width > 1] the machine subtraction [width - 1] is the
    mathematical one, for every width of [size_t]. *)
Lemma sub_no_wrap (bits width : N) :
  1 < width -> width < 2 ^ bits -> SizeT.sub bits width 1 = width - 1.
Proof.
  intros Hgt Hlt. unfold SizeT.sub.
  replace (width + 2 ^ bits - 1) with (width - 1 + 1 * 2 ^ bits) by lia.
  rewrite N.Div0.mod_add.
  apply N.mod_small. lia.
Qed.

(** ** Facts about prefixes of strings *)

Section Prefixes.

Lemma string_length_append (a b : string) :
  String.length (a ++ b) = (String.length a + String.length b)%nat.
Proof.
  induction a as [|c a IH]; simpl; [reflexivity | now rewrite IH].
Qed.

Lemma substring_0_length (n : nat) (s : string) :
  String.length (substring 0 n s) = Nat.min n (String.length s).
Proof.
  revert n. induction s as [|c s IH]; intros [|n]; simpl; auto.
Qed.

Lemma substring_0_all (n : nat) (s : string) :
  (String.length s <= n)%nat -> substring 0 n s = s.
Proof.
  revert n. induction s as [|c s IH]; intros [|n] Hle; simpl in *;
    try reflexivity; try lia.
  f_equal. apply IH. lia.
Qed.

Lemma substring_0_split (n : nat) (s : string) :
  exists rest, s = substring 0 n s ++ rest.
Proof.
  revert n. induction s as [|c s IH]; intros [|n]; simpl.
  - now exists "".
  - now exists "".
  - now exists (String c s).
  - destruct (IH n) as [rest Hrest]. exists rest. now rewrite <- Hrest.
Qed.

Lemma substring_0_prefix (n : nat) (s : string) :
  prefix (substring 0 n s) s = true.
Proof.
  revert n. induction s as [|c s IH]; intros [|n]; simpl; auto.
  destruct (ascii_dec c c) as [_|Hne]; [apply IH | now elim Hne].
Qed.

(** Cutting at [n] a string that was cut at [m >= n] and then extended
    is cutting the original at [n]. *)
Lemma substring_0_cut_app (n m : nat) (s t : string) :
  (n <= m)%nat -> (m <= String.length s)%nat ->
  substring 0 n (substring 0 m s ++ t) = substring 0 n s.
Proof.
  revert n m. induction s as [|c s IH]; intros [|n] [|m] Hnm Hm;
    simpl in *; try reflexivity; try lia.
  - now destruct t.
  - now destruct t.
  - f_equal. apply IH; lia.
Qed.

Lemma get_append_last (p : string) (c : ascii) :
  get (String.length p) (p ++ String c "") = Some c.
Proof.
  induction p as [|a p IH]; simpl; [reflexivity | exact IH].
Qed.

End Prefixes.

(** ** [substr] from position 0 *)

Lemma substr_0 (s : string) (n : N) :
  substr s 0 n = Ok (substring 0 (N.to_nat (N.min n (length s))) s).
Proof.
  unfold substr. rewrite N.sub_0_r.
  destruct (N.ltb_spec (length s) 0) as [H|_]; [lia | reflexivity].
Qed.

Lemma substr_0_within (s : string) (n : N) :
  n <= length s -> substr s 0 n = Ok (substring 0 (N.to_nat n) s).
Proof.
  intros Hle. rewrite substr_0. now rewrite N.min_l.
Qed.

Lemma length_substring_0 (s : string) (n : N) :
  n <= length s -> length (substring 0 (N.to_nat n) s) = n.
Proof.
  unfold length. intros Hle. rewrite substring_0_length. lia.
Qed.

Lemma length_append (a b : string) : length (a ++ b) = length a + length b.
Proof.
  unfold length. rewrite string_length_append. lia.
Qed.

(** ** The four branches of [truncateString] *)

Lemma truncateString_fits (s : string) (w : N) :
  length s <= w -> truncateString s w = Ok s.
Proof.
  intros Hle. unfold truncateString.
  destruct (N.ltb_spec w (length s)); [lia | reflexivity].
Qed.

Lemma truncateString_marker (s : string) (w : N) :
  w < length s -> 1 < w ->
  truncateString s w = Ok (substring 0 (N.to_nat (w - 1)) s ++ ".").
Proof.
  intros Hlt Hw. unfold truncateString.
  destruct (N.ltb_spec w (length s)); [|lia].
  destruct (N.ltb_spec 1 w); [|lia].
  rewrite substr_0_within by lia. reflexivity.
Qed.

Lemma truncateString_one (s : string) :
  1 < length s -> truncateString s 1 = Ok (substring 0 1 s).
Proof.
  intros Hlt. unfold truncateString.
  destruct (N.ltb_spec 1 (length s)); [|lia].
  simpl. now rewrite substr_0_within by lia.
Qed.

Lemma truncateString_zero (s : string) : truncateString s 0 = Ok "".
Proof.
  unfold truncateString.
  destruct (N.ltb_spec 0 (length s)) as [Hpos|Hz]; [reflexivity|].
  destruct s; [reflexivity | unfold length in Hz; simpl in Hz; lia].
Qed.

(** The function never throws, and its result has the expected length. *)
Lemma truncateString_returns (s : string) (w : N) :
  exists r, truncateString s w = Ok r /\ length r = N.min (length s) w.
Proof.
  destruct (N.le_gt_cases (length s) w) as [Hle|Hgt].
  - exists s. split; [now apply truncateString_fits | lia].
  - destruct (N.lt_trichotomy w 1) as [Hz|[H1|Hw]].
    + assert (w = 0) by lia. subst w. exists "". split.
      * apply truncateString_zero.
      * unfold length at 1. simpl. lia.
    + subst w. exists (substring 0 1 s). split.
      * now apply truncateString_one.
      * change 1%nat with (N.to_nat 1). rewrite length_substring_0; lia.
    + eexists. split.
      * now apply truncateString_marker.
      * rewrite length_append, length_substring_0 by lia.
        unfold length at 1. simpl. lia.
Qed.

Lemma length_marked (s : string) (w : N) :
  w < length s -> 1 < w ->
  length (substring 0 (N.to_nat (w - 1)) s ++ ".") = w.
Proof.
  intros Hlt Hw. rewrite length_append, length_substring_0 by lia.
  unfold length at 1. simpl. lia.
Qed.

Lemma length_first (s : string) : 1 < length s -> length (substring 0 1 s) = 1.
Proof.
  intros Hlt. change 1%nat with (N.to_nat 1).
  rewrite length_substring_0; lia.
Qed.

(** ** Properties of [truncateString] *)

(** C1: for every string [s] and every width [w], [truncateString s w]
    returns, and the length of its result is [min (length s) w]; at
    width [0] that length is [0]. *)
Theorem truncateString_length_min (s : string) (w : N) :
  (exists r, truncateString s w = Ok r /\ length r = N.min (length s) w) /\
  (exists r, truncateString s 0 = Ok r /\ length r = 0).
Proof.
  split.
  - apply truncateString_returns.
  - destruct (truncateString_returns s 0) as [r [Hr Hlen]].
    exists r. split; [exact Hr | lia].
Qed.

(** C2: for every string [s] and every width [w], [truncateString s w]
    returns a string of length at most [w]. *)
Theorem truncateString_length_bound (s : string) (w : N) :
  exists r, truncateString s w = Ok r /\ length r <= w.
Proof.
  destruct (truncateString_returns s w) as [r [Hr Hlen]].
  exists r. split; [exact Hr | lia].
Qed.

(** C3: when [length s <= w], [truncateString s w] returns [s] itself; in
    particular the empty string is returned as the empty string at every
    width. *)
Theorem truncateString_identity (s : string) (w : N) :
  length s <= w ->
  truncateString s w = Ok s /\ (forall w', truncateString "" w' = Ok "").
Proof.
  intros Hle. split.
  - now apply truncateString_fits.
  - intros w'. apply truncateString_fits. unfold length. simpl. lia.
Qed.

Lemma truncateString_identity_witness :
  truncateString "abc" 3 = Ok "abc" /\
  (forall w', truncateString "" w' = Ok "").
Proof.
  apply (truncateString_identity "abc" 3). vm_compute. discriminate.
Defined.

(** C4: when [length s > w] and [w > 1], [truncateString s w] returns the
    first [w - 1] characters of [s] followed by the marker ['.']; the
    result has length exactly [w] and its last character is ['.']. *)
Theorem truncateString_marker_appended (s : string) (w : N) :
  w < length s -> 1 < w ->
  exists head rest,
    s = head ++ rest /\ length head = w - 1 /\
    truncateString s w = Ok (head ++ ".") /\
    length (head ++ ".") = w /\
    get (N.to_nat (w - 1)) (head ++ ".") = Some "."%char.
Proof.
  intros Hlt Hw.
  destruct (substring_0_split (N.to_nat (w - 1)) s) as [rest Hsplit].
  exists (substring 0 (N.to_nat (w - 1)) s), rest.
  assert (Hhead : length (substring 0 (N.to_nat (w - 1)) s) = w - 1)
    by (apply length_substring_0; lia).
  repeat split.
  - exact Hsplit.
  - exact Hhead.
  - now apply truncateString_marker.
  - now apply length_marked.
  - rewrite <- Hhead at 1. unfold length. rewrite Nat2N.id.
    apply get_append_last.
Qed.

Lemma truncateString_marker_appended_witness :
  exists head rest,
    "abcdef" = head ++ rest /\ length head = 5 - 1 /\
    truncateString "abcdef" 5 = Ok (head ++ ".") /\
    length (head ++ ".") = 5 /\
    get (N.to_nat (5 - 1)) (head ++ ".") = Some "."%char.
Proof.
  apply (truncateString_marker_appended "abcdef" 5); vm_compute; reflexivity.
Defined.

(** C5: when [length s > w] and [w = 1], [truncateString s w] returns
    exactly the first character of [s], with no marker after it. *)
Theorem truncateString_single_width (s : string) (w : N) :
  w < length s -> w = 1 ->
  exists c rest, s = String c rest /\ truncateString s w = Ok (String c "").
Proof.
  intros Hlt ->. rewrite truncateString_one by exact Hlt.
  destruct s as [|c rest].
  - unfold length in Hlt. simpl in Hlt. lia.
  - exists c, rest. split; [reflexivity|].
    simpl. now destruct rest.
Qed.

Lemma truncateString_single_width_witness :
  exists c rest,
    "abcdef" = String c rest /\ truncateString "abcdef" 1 = Ok (String c "").
Proof.
  apply (truncateString_single_width "abcdef" 1); vm_compute; reflexivity.
Defined.

(** C6: at width [0], [truncateString] returns the empty string for every
    input. *)
Theorem truncateString_zero_width (s : string) : truncateString s 0 = Ok "".
Proof. apply truncateString_zero. Qed.

(** C7: [truncateString] is idempotent at a fixed width: the call returns
    some [r], and truncating [r] again to the same width returns [r]. *)
Theorem truncateString_idempotent (s : string) (w : N) :
  exists r, truncateString s w = Ok r /\ truncateString r w = Ok r /\
            (r' <- truncateString s w ;; truncateString r' w)
            = truncateString s w.
Proof.
  destruct (truncateString_returns s w) as [r [Hr Hlen]].
  exists r.
  assert (Hrr : truncateString r w = Ok r)
    by (apply truncateString_fits; lia).
  repeat split; trivial.
  rewrite Hr. simpl. exact Hrr.
Qed.

(** C9: successive truncation composes.  For widths [w1 <= w2],
    truncating [s] to [w2] returns some [r2], truncating [s] to [w1]
    returns some [r1], and truncating [r2] to [w1] returns [r1]. *)
Theorem truncateString_compose (s : string) (w1 w2 : N) :
  w1 <= w2 ->
  exists r2 r1, truncateString s w2 = Ok r2 /\
                truncateString s w1 = Ok r1 /\
                truncateString r2 w1 = Ok r1.
Proof.
  intros Hle.
  destruct (truncateString_returns s w1) as [r1 [Hr1 Hlen1]].
  destruct (N.le_gt_cases (length s) w2) as [Hfit|Hcut].
  { exists s, r1. rewrite truncateString_fits by exact Hfit. now repeat split. }
  destruct (N.eq_dec w1 0) as [Hz1|Hnz1].
  { subst w1. destruct (truncateString_returns s w2) as [r2 [Hr2 _]].
    exists r2, "". rewrite Hr2. repeat split; apply truncateString_zero. }
  destruct (N.eq_dec w1 w2) as [Heq|Hneq].
  { subst w2. exists r1, r1. repeat split; trivial.
    apply truncateString_fits. lia. }
  assert (Hw2 : 1 < w2) by lia.
  exists (substring 0 (N.to_nat (w2 - 1)) s ++ ".").
  pose proof (length_marked s w2 Hcut Hw2) as Hlen2.
  destruct (N.eq_dec w1 1) as [Hone|Hmore].
  - subst w1. exists (substring 0 1 s).
    rewrite truncateString_marker by assumption.
    rewrite !truncateString_one by lia.
    repeat split. f_equal. apply substring_0_cut_app.
    + lia.
    + unfold length in Hcut. lia.
  - exists (substring 0 (N.to_nat (w1 - 1)) s ++ ".").
    rewrite !truncateString_marker by lia.
    repeat split. do 2 f_equal. apply substring_0_cut_app.
    + lia.
    + unfold length in Hcut. lia.
Qed.

Lemma truncateString_compose_witness :
  exists r2 r1, truncateString "abcdefgh" 6 = Ok r2 /\
                truncateString "abcdefgh" 3 = Ok r1 /\
                truncateString r2 3 = Ok r1.
Proof.
  apply (truncateString_compose "abcdefgh" 3 6). vm_compute. discriminate.
Defined.

(** C10: the result of [truncateString s w] is either a prefix of [s]
    (possibly [s] itself, or empty), or a proper prefix of [s] followed by
    the marker ['.']; in both cases it is no longer than [s]. *)
Theorem truncateString_shape (s : string) (w : N) :
  exists r, truncateString s w = Ok r /\
            (prefix r s = true \/
             exists p, prefix p s = true /\ length p < length s /\
                       r = p ++ ".") /\
            length r <= length s.
Proof.
  destruct (N.le_gt_cases (length s) w) as [Hfit|Hcut].
  - exists s. rewrite truncateString_fits by exact Hfit.
    repeat split; [|lia]. left.
    rewrite <- (substring_0_all (String.length s) s) at 1 by lia.
    apply substring_0_prefix.
  - destruct (N.lt_trichotomy w 1) as [Hz|[H1|Hw]].
    + assert (w = 0) by lia. subst w. exists "".
      rewrite truncateString_zero. repeat split.
      * left. now destruct s.
      * unfold length at 1. simpl. lia.
    + subst w. exists (substring 0 1 s).
      rewrite truncateString_one by exact Hcut. repeat split.
      * left. apply substring_0_prefix.
      * rewrite length_first by exact Hcut. lia.
    + exists (substring 0 (N.to_nat (w - 1)) s ++ ".").
      rewrite truncateString_marker by assumption. repeat split.
      * right. exists (substring 0 (N.to_nat (w - 1)) s). repeat split.
        -- apply substring_0_prefix.
        -- rewrite length_substring_0; lia.
      * rewrite length_marked by assumption. lia.
Qed.


(** ** Further properties of [truncateString] *)

Lemma substring_0_app (n : nat) (s t : string) :
  (n <= String.length s)%nat -> substring 0 n (s ++ t) = substring 0 n s.
Proof.
  revert n. induction s as [|c s IH]; intros [|n] Hn; simpl in *;
    try reflexivity; try lia.
  - now destruct t.
  - f_equal. apply IH. lia.
Qed.

Lemma get_substring_0 (i n : nat) (s : string) (c : ascii) :
  get i (substring 0 n s) = Some c -> get i s = Some c.
Proof.
  intros Hget. destruct (Nat.lt_ge_cases i n) as [Hlt|Hge].
  - rewrite substring_correct1 in Hget by exact Hlt.
    now rewrite Nat.add_0_r in Hget.
  - rewrite substring_correct2 in Hget by exact Hge. discriminate.
Qed.

(** X1: a result computed for width [w2] is left as it is by any later
    truncation to a width [w1 >= w2]. *)
Theorem truncateString_widen (s : string) (w1 w2 : N) :
  w2 <= w1 ->
  exists r, truncateString s w2 = Ok r /\ truncateString r w1 = Ok r.
Proof.
  intros Hle. destruct (truncateString_returns s w2) as [r [Hr Hlen]].
  exists r. split; [exact Hr|]. apply truncateString_fits. lia.
Qed.

Lemma truncateString_widen_witness :
  exists r, truncateString "abcdef" 3 = Ok r /\ truncateString r 5 = Ok r.
Proof.
  apply (truncateString_widen "abcdef" 5 3). vm_compute. discriminate.
Defined.

(** X2: a string longer than the width never comes back unchanged: the
    result is strictly shorter than the input, hence different from it. *)
Theorem truncateString_cut_differs (s : string) (w : N) :
  w < length s ->
  exists r, truncateString s w = Ok r /\ length r < length s /\ r <> s.
Proof.
  intros Hcut. destruct (truncateString_returns s w) as [r [Hr Hlen]].
  exists r. split; [exact Hr|].
  assert (Hshort : length r < length s) by lia.
  split; [exact Hshort|]. intros ->. lia.
Qed.

Lemma truncateString_cut_differs_witness :
  exists r, truncateString "abcdef" 5 = Ok r /\
            length r < length "abcdef" /\ r <> "abcdef".
Proof.
  apply (truncateString_cut_differs "abcdef" 5). vm_compute. reflexivity.
Defined.

(** X3: every position before the last slot of the width keeps the
    character of the input: for [i + 1 < w], position [i] of the result
    holds what position [i] of [s] holds (nothing, when [s] is shorter). *)
Theorem truncateString_keeps_content (s : string) (w : N) (i : nat) :
  N.of_nat i + 1 < w ->
  exists r, truncateString s w = Ok r /\ get i r = get i s.
Proof.
  intros Hi. destruct (N.le_gt_cases (length s) w) as [Hfit|Hcut].
  - exists s. split; [now apply truncateString_fits | reflexivity].
  - exists (substring 0 (N.to_nat (w - 1)) s ++ ".").
    split; [apply truncateString_marker; lia|].
    rewrite <- append_correct1.
    + rewrite substring_correct1 by lia. now rewrite Nat.add_0_r.
    + rewrite substring_0_length. unfold length in Hcut. lia.
Qed.

Lemma truncateString_keeps_content_witness :
  exists r, truncateString "abcdef" 5 = Ok r /\
            get 3 r = get 3 "abcdef".
Proof.
  apply (truncateString_keeps_content "abcdef" 5 3). vm_compute. reflexivity.
Defined.

(** X4: once a string is longer than the width, what follows it does not
    matter: appending any [t] to [s] leaves the result unchanged. *)
Theorem truncateString_ignores_tail (s t : string) (w : N) :
  w < length s -> truncateString (s ++ t) w = truncateString s w.
Proof.
  intros Hcut.
  assert (Hcut' : w < length (s ++ t)) by (rewrite length_append; lia).
  destruct (N.lt_trichotomy w 1) as [Hz|[H1|Hw]].
  - assert (w = 0) by lia. subst w. now rewrite !truncateString_zero.
  - subst w. rewrite !truncateString_one by assumption.
    f_equal. apply substring_0_app. unfold length in Hcut. lia.
  - rewrite !truncateString_marker by assumption.
    do 2 f_equal. apply substring_0_app. unfold length in Hcut. lia.
Qed.

Lemma truncateString_ignores_tail_witness :
  truncateString ("abcdef" ++ "ghi") 5 = truncateString "abcdef" 5.
Proof.
  apply (truncateString_ignores_tail "abcdef" "ghi" 5). vm_compute.
  reflexivity.
Defined.

(** X5: the function has no integer overflow: for a [size_t] of any
    number of bits and every width that fits in it, the body computed
    with wrap-around subtraction returns what [truncateString] returns. *)
Theorem truncateString_no_wrap (bits : N) (str : string) (width : N) :
  width < 2 ^ bits ->
  truncateString_wrap bits str width = truncateString str width.
Proof.
  intros Hrange. unfold truncateString_wrap, truncateString.
  destruct (width <? length str); [|reflexivity].
  destruct (N.ltb_spec 1 width) as [Hgt|_]; [|reflexivity].
  now rewrite sub_no_wrap.
Qed.

Lemma truncateString_no_wrap_witness :
  truncateString_wrap 32 "abcdef" 5 = truncateString "abcdef" 5.
Proof.
  apply (truncateString_no_wrap 32 "abcdef" 5). vm_compute. reflexivity.
Defined.

(** X6: on an input that holds no ['.'], the marker tells whether the
    string was cut to a width above 1: the result holds a ['.'] exactly
    when [length s > w] and [w > 1]. *)
Theorem truncateString_marker_iff_cut (s : string) (w : N) :
  (forall i, get i s <> Some "."%char) ->
  exists r, truncateString s w = Ok r /\
            ((exists i, get i r = Some "."%char) <->
             (w < length s /\ 1 < w)).
Proof.
  intros Hclean.
  destruct (N.le_gt_cases (length s) w) as [Hfit|Hcut].
  { exists s. split; [now apply truncateString_fits|]. split.
    - intros [i Hi]. now elim (Hclean i).
    - intros [Hlt _]. lia. }
  destruct (N.lt_trichotomy w 1) as [Hz|[H1|Hw]].
  - assert (w = 0) by lia. subst w. exists "".
    split; [apply truncateString_zero|]. split.
    + intros [i Hi]. destruct i; discriminate.
    + intros [_ Hlt]. lia.
  - subst w. exists (substring 0 1 s).
    split; [now apply truncateString_one|]. split.
    + intros [i Hi]. apply get_substring_0 in Hi. now elim (Hclean i).
    + intros [_ Hlt]. lia.
  - exists (substring 0 (N.to_nat (w - 1)) s ++ ".").
    split; [now apply truncateString_marker|]. split.
    + intros _. split; assumption.
    + intros _. eexists. apply get_append_last.
Qed.

Lemma truncateString_marker_iff_cut_witness :
  exists r, truncateString "abcdef" 5 = Ok r /\
            ((exists i, get i r = Some "."%char) <->
             (5 < length "abcdef" /\ 1 < 5)).
Proof.
  apply (truncateString_marker_iff_cut "abcdef" 5).
  intros i. do 6 (destruct i as [|i]; [discriminate|]). discriminate.
Defined.
